(** * Ethereum ABI encoding, keccak digests and the Ethereum bridge
      storage keys of Namada ([core/src/types/eth_abi.rs] and
      [core/src/ledger/eth_bridge/storage/mod.rs]). *)

From Stdlib Require Import ZArith List String Ascii Bool Lia.
From Stdlib Require Import Strings.Byte.
#[warnings="-stdlib-vector"] From Stdlib Require Vector.
Import ListNotations.
Open Scope Z_scope.

(** ** Bytes *)

Definition byte_of_Z (z : Z) : byte :=
  match Byte.of_N (Z.to_N (Z.land z 255)) with
  | Some b => b
  | None => x00
  end.

Definition Z_of_byte (b : byte) : Z := Z.of_N (Byte.to_N b).

(** The bytes of a Rust [String] (its UTF-8 buffer). *)
Definition string_bytes (s : string) : list byte := list_byte_of_string s.

(** ** The ABI token model ([ethabi::token::Token]) *)

#[local] Set Warnings "-register-all".

Module Token.
Inductive t : Type :=
| Address (a : list byte)
| FixedBytes (b : list byte)
| Bytes (b : list byte)
| Int (n : Z)
| Uint (n : Z)
| Bool (b : bool)
| String (s : string)
| FixedArray (ts : list t)
| Array (ts : list t)
| Tuple (ts : list t).
End Token.
Abbreviation Token := Token.t.
Import Token (Address, FixedBytes, Bytes, Int, Uint, Bool, FixedArray, Array, Tuple).

(** ** The canonical ABI encoder ([ethabi::encode])

    Modelled from the spec: [ethabi::encode] is an external crate, its
    layout is the head/tail algorithm of section 4.1 of the spec. *)

(** One 32-byte big-endian word holding [n] modulo 2^256. *)
Definition word (n : Z) : list byte :=
  map (fun i => byte_of_Z (Z.shiftr n (8 * (31 - Z.of_nat i)))) (seq 0 32).

(** Right zero padding to a multiple of 32 bytes. *)
Definition pad_right (bs : list byte) : list byte :=
  bs ++ repeat x00 ((32 - List.length bs mod 32) mod 32)%nat.

(** Left zero padding to 32 bytes (addresses). *)
Definition pad_left (bs : list byte) : list byte :=
  repeat x00 (32 - List.length bs)%nat ++ bs.

Fixpoint is_dynamic (t : Token) : bool :=
  match t with
  | Bytes _ | Token.String _ | Array _ => true
  | FixedArray ts | Tuple ts => existsb is_dynamic ts
  | _ => false
  end.

(** Head/tail layout of a sequence whose members are already encoded:
    [(true, tail)] for a dynamic member, [(false, head)] for a static one. *)
Definition head_len (p : bool * list byte) : nat :=
  if fst p then 32%nat else List.length (snd p).

Fixpoint heads (ps : list (bool * list byte)) (off : nat) : list byte :=
  match ps with
  | [] => []
  | (d, bs) :: r =>
      (if d then word (Z.of_nat off) else bs)
        ++ heads r (if d then (off + List.length bs)%nat else off)
  end.

Definition tails (ps : list (bool * list byte)) : list byte :=
  List.concat (map (fun p : bool * list byte => if fst p then snd p else []) ps).

Definition layout (ps : list (bool * list byte)) : list byte :=
  heads ps (list_sum (map head_len ps)) ++ tails ps.

(** Encoding of one token: the head content of a static token, the tail
    block of a dynamic one. *)
Fixpoint enc (t : Token) : list byte :=
  match t with
  | Address a => pad_left a
  | FixedBytes b => pad_right b
  | Bytes b => word (Z.of_nat (List.length b)) ++ pad_right b
  | Int n => word n
  | Uint n => word n
  | Bool b => word (if b then 1 else 0)
  | Token.String s =>
      word (Z.of_nat (List.length (string_bytes s))) ++ pad_right (string_bytes s)
  | FixedArray ts | Tuple ts =>
      layout (map (fun t => (is_dynamic t, enc t)) ts)
  | Array ts =>
      word (Z.of_nat (List.length ts))
        ++ layout (map (fun t => (is_dynamic t, enc t)) ts)
  end.

(** [ethabi::encode(tokens)]: the top-level sequence laid out as a tuple. *)
Definition abi_encode (ts : list Token) : list byte :=
  layout (map (fun t => (is_dynamic t, enc t)) ts).

(** ** Hex strings (HEXLOWER/hex decoding of the tests and of digests) *)

Definition hex_val (c : ascii) : option Z :=
  let n := Z.of_nat (nat_of_ascii c) in
  if (48 <=? n) && (n <=? 57) then Some (n - 48)
  else if (97 <=? n) && (n <=? 102) then Some (n - 87)
  else if (65 <=? n) && (n <=? 70) then Some (n - 55)
  else None.

Fixpoint hex_decode_list (cs : list ascii) : option (list byte) :=
  match cs with
  | [] => Some []
  | hi :: lo :: r =>
      match hex_val hi, hex_val lo, hex_decode_list r with
      | Some h, Some l, Some bs => Some (byte_of_Z (16 * h + l) :: bs)
      | _, _, _ => None
      end
  | [_] => None
  end.

Definition hex_decode (s : string) : option (list byte) :=
  hex_decode_list (list_ascii_of_string s).

(** ** The keccak-256 hash engine ([crate::types::keccak])

    Modelled from the spec: [keccak_hash] lives in [types/keccak.rs], not
    in this tree; section 4.4 of the spec names keccak-256 (the original
    Keccak padding, not SHA-3). Lanes are 64-bit words kept as [Z]. *)

Definition mask64 : Z := Z.ones 64.

Definition rotl64 (v : Z) (n : Z) : Z :=
  Z.land (Z.lor (Z.shiftl v n) (Z.shiftr v (64 - n))) mask64.

Definition round_constants : list Z :=
  [ 0x0000000000000001; 0x0000000000008082; 0x800000000000808A;
    0x8000000080008000; 0x000000000000808B; 0x0000000080000001;
    0x8000000080008081; 0x8000000000008009; 0x000000000000008A;
    0x0000000000000088; 0x0000000080008009; 0x000000008000000A;
    0x000000008000808B; 0x800000000000008B; 0x8000000000008089;
    0x8000000000008003; 0x8000000000008002; 0x8000000000000080;
    0x000000000000800A; 0x800000008000000A; 0x8000000080008081;
    0x8000000000008080; 0x0000000080000001; 0x8000000080008008 ].

(** Rotation offsets, indexed by [x + 5 * y]. *)
Definition rotation_offsets : list Z :=
  [ 0; 1; 62; 28; 27; 36; 44; 6; 55; 20; 3; 10; 43; 25; 39;
    41; 45; 15; 21; 8; 18; 2; 61; 56; 14 ].

Definition lane (st : list Z) (x y : nat) : Z :=
  nth (x mod 5 + 5 * (y mod 5))%nat st 0.

Definition lanes_init (f : nat -> nat -> Z) : list Z :=
  map (fun i => f (i mod 5)%nat (i / 5)%nat) (seq 0 25).

Definition theta (a : list Z) : list Z :=
  let c x := fold_left Z.lxor (map (lane a x) (seq 0 5)) 0 in
  let d x := Z.lxor (c (x + 4)%nat) (rotl64 (c (x + 1)%nat) 1) in
  lanes_init (fun x y => Z.lxor (lane a x y) (d x)).

(** rho and pi: [B[y, 2x+3y] = rot(A[x,y], r[x,y])], read backwards. *)
Definition rho_pi (a : list Z) : list Z :=
  lanes_init (fun x y =>
    let x0 := ((3 * (y + 2 * x)) mod 5)%nat in
    rotl64 (lane a x0 x) (nth (x0 + 5 * x)%nat rotation_offsets 0)).

Definition chi (b : list Z) : list Z :=
  lanes_init (fun x y =>
    Z.lxor (lane b x y)
      (Z.land (Z.lxor (lane b (x + 1)%nat y) mask64) (lane b (x + 2)%nat y))).

Definition iota (rc : Z) (a : list Z) : list Z :=
  match a with
  | l0 :: r => Z.lxor l0 rc :: r
  | [] => []
  end.

Definition keccak_f (st : list Z) : list Z :=
  fold_left (fun a rc => iota rc (chi (rho_pi (theta a)))) round_constants st.

(** Rate of keccak-256 in bytes (1088 bits). *)
Definition rate : nat := 136.

(** Keccak padding: [0x01], zeros, and [0x80] on the last byte of the
    block ([0x81] when only one byte is left). *)
Definition keccak_pad (m : list byte) : list byte :=
  let q := (rate - List.length m mod rate)%nat in
  if Nat.eqb q 1 then m ++ [x81]
  else m ++ [x01] ++ repeat x00 (q - 2)%nat ++ [x80].

Fixpoint lane_of_bytes (bs : list byte) : Z :=
  match bs with
  | [] => 0
  | b :: r => Z.lor (Z_of_byte b) (Z.shiftl (lane_of_bytes r) 8)
  end.

Definition bytes_of_lane (v : Z) : list byte :=
  map (fun i => byte_of_Z (Z.shiftr v (8 * Z.of_nat i))) (seq 0 8).

Definition absorb_block (st : list Z) (blk : list byte) : list Z :=
  keccak_f (map (fun i =>
    Z.lxor (nth i st 0)
      (if (i <? 17)%nat then lane_of_bytes (firstn 8 (skipn (8 * i)%nat blk)) else 0))
    (seq 0 25)).

Fixpoint absorb (k : nat) (st : list Z) (m : list byte) : list Z :=
  match k with
  | O => st
  | S k => absorb k (absorb_block st (firstn rate m)) (skipn rate m)
  end.

(** [KeccakHash(pub [u8; 32])]. *)
Record KeccakHash : Type := mk_hash { hash_bytes : list byte }.

Definition keccak_hash (m : list byte) : KeccakHash :=
  let p := keccak_pad m in
  let st := absorb (List.length p / rate)%nat (repeat 0 25) p in
  mk_hash (List.concat (map (fun i => bytes_of_lane (nth i st 0)) (seq 0 4))).

(** ** The signable digest ([SignableEthMessage::as_signable])

    Modelled from the spec: [crate::proto] is not in this tree. Section
    4.5: an ASCII tag and the decimal length of the 32-byte digest are
    prepended, and the whole is hashed again. The tag is the Ethereum
    signed-message header. *)
Definition eth_message_prefix : list byte :=
  [x19] ++ string_bytes "Ethereum Signed Message:" ++ [x0a] ++ string_bytes "32".

Definition as_signable (hash : KeccakHash) : KeccakHash :=
  keccak_hash (eth_message_prefix ++ hash_bytes hash).

(** ** [EncodeCell<T>]: encoded bytes tagged by a phantom type *)

Record EncodeCell (T : Type) : Type := mk_cell { encoded_data : list byte }.
Arguments mk_cell {T} encoded_data.
Arguments encoded_data {T} _.

(** [Vec<u8>] equality and ordering: element-wise, a proper prefix first. *)
Fixpoint bytes_eq (l1 l2 : list byte) : bool :=
  match l1, l2 with
  | [], [] => true
  | x :: r, y :: s => Byte.eqb x y && bytes_eq r s
  | _, _ => false
  end.

Fixpoint bytes_cmp (l1 l2 : list byte) : comparison :=
  match l1, l2 with
  | [], [] => Eq
  | [], _ :: _ => Lt
  | _ :: _, [] => Gt
  | x :: r, y :: s =>
      match N.compare (Byte.to_N x) (Byte.to_N y) with
      | Eq => bytes_cmp r s
      | c => c
      end
  end.

Section EncodeCellOrd.
Context {T : Type}.

(** [impl PartialEq for EncodeCell<T>]. *)
Definition eq (a b : EncodeCell T) : bool := bytes_eq (encoded_data a) (encoded_data b).

(** [impl PartialOrd for EncodeCell<T>]. *)
Definition partial_cmp (a b : EncodeCell T) : option comparison :=
  Some (bytes_cmp (encoded_data a) (encoded_data b)).

(** [impl Ord for EncodeCell<T>]. *)
Definition cmp (a b : EncodeCell T) : comparison :=
  bytes_cmp (encoded_data a) (encoded_data b).

Definition into_inner (c : EncodeCell T) : list byte := encoded_data c.
End EncodeCellOrd.

(** ** The [Encode<N>] trait *)

Class Encode (N : nat) (A : Type) : Type := { tokenize : A -> Vector.t Token N }.

(** [EncodeCell::new]. *)
Definition EncodeCell_new {N : nat} {T : Type} `{Encode N T} (value : T) : EncodeCell T :=
  mk_cell (abi_encode (Vector.to_list (tokenize value))).

(** [EncodeCell::new_from]: no link between [T] and the tokens. *)
Definition EncodeCell_new_from {T : Type} {N : nat} (tokens : Vector.t Token N) : EncodeCell T :=
  mk_cell (abi_encode (Vector.to_list tokens)).

Section EncodeMethods.
Context {N : nat} {A : Type} `{Encode N A}.

Definition encode (x : A) : EncodeCell A := EncodeCell_new x.

Definition keccak256 (x : A) : KeccakHash := keccak_hash (into_inner (encode x)).

Definition signable_keccak256 (x : A) : KeccakHash :=
  let message := keccak256 x in as_signable message.
End EncodeMethods.

(** [pub type AbiEncode<const N: usize> = [Token; N]] and its identity
    tokenization ([self.clone()]). *)
Definition AbiEncode (N : nat) : Type := Vector.t Token N.

#[export] Instance AbiEncode_Encode (N : nat) : Encode N (AbiEncode N) :=
  { tokenize := fun v => v }.

(** ** Hex conversions of [KeccakHash] ([TryFrom<&str>] and [Display])

    Modelled from the spec: [types/keccak.rs] is not in this tree. Parsing
    fails on a length other than 64 or on a non-hex character (section 7);
    hex digits of both cases are accepted. The spec leaves the output case
    open (section 9); the digits are printed in upper case, which is what
    [test_hex_roundtrip] expects. *)

Inductive result (A E : Type) : Type := Ok (a : A) | Err (e : E).
Arguments Ok {A E} a.
Arguments Err {A E} e.

Inductive TryFromError : Type := InvalidLength | InvalidHexChar.

Definition keccak_of_str (s : string) : result KeccakHash TryFromError :=
  if negb (String.length s =? 64)%nat then Err InvalidLength
  else match hex_decode s with
       | Some bs => Ok (mk_hash bs)
       | None => Err InvalidHexChar
       end.

Definition upper_digit (v : Z) : ascii :=
  ascii_of_nat (Z.to_nat (if v <? 10 then 48 + v else 55 + v)).

Definition keccak_to_string (h : KeccakHash) : string :=
  string_of_list_ascii
    (List.concat (map (fun b => [upper_digit (Z_of_byte b / 16);
                                 upper_digit (Z_of_byte b mod 16)])
                      (hash_bytes h))).

Definition is_hex (c : ascii) : bool :=
  match hex_val c with Some _ => true | None => false end.

Definition hex_valid (s : string) : bool :=
  (String.length s =? 64)%nat && forallb is_hex (list_ascii_of_string s).

(** [str::to_ascii_uppercase]. *)
Definition ascii_upper (c : ascii) : ascii :=
  let n := nat_of_ascii c in
  if (97 <=? n)%nat && (n <=? 122)%nat then ascii_of_nat (n - 32) else c.

Definition to_ascii_uppercase (s : string) : string :=
  string_of_list_ascii (map ascii_upper (list_ascii_of_string s)).

(** ** Ethereum bridge storage keys ([ledger/eth_bridge/storage/mod.rs])

    Modelled from the spec: [Address], [Key] and [token::balance_key] live
    in [crate::types], not in this tree; the spec treats storage keys as
    opaque namespaced keys. An address is established, implicit or
    internal; a key is a list of segments; [balance_key token owner] is the
    key [token/balance/owner]. Only a few internal addresses are listed. *)

Inductive InternalAddress : Type :=
| PoS | PosSlashPool | Parameters | Ibc | Governance | SlashFund
| EthBridge | EthBridgePool.

Inductive Address : Type :=
| Established (hash : string)
| Implicit (pkh : string)
| Internal (i : InternalAddress).

Definition address_eq_dec (a b : Address) : {a = b} + {a <> b}.
Proof. decide equality; [apply string_dec | apply string_dec | decide equality]. Defined.

Inductive DbKeySeg : Type :=
| AddressSeg (a : Address)
| StringSeg (s : string).

Definition seg_eq_dec (a b : DbKeySeg) : {a = b} + {a <> b}.
Proof. decide equality; [apply address_eq_dec | apply string_dec]. Defined.

Record Key : Type := mk_key { segments : list DbKeySeg }.

Definition key_eq_dec (a b : Key) : {a = b} + {a <> b}.
Proof. decide equality; apply (list_eq_dec seg_eq_dec). Defined.

Definition to_db_key (a : Address) : DbKeySeg := AddressSeg a.

(** [Key::from] and [Key::push]. *)
Definition key_from (seg : DbKeySeg) : Key := mk_key [seg].

Definition push (k : Key) (seg : DbKeySeg) : Key := mk_key (segments k ++ [seg]).

Definition BALANCE_STORAGE_KEY : string := "balance".

Definition balance_key (token owner : Address) : Key :=
  push (push (key_from (to_db_key token)) (StringSeg BALANCE_STORAGE_KEY))
       (to_db_key owner).

(** The native token [nam()]: an established address. *)
Definition nam : Address := Established "nam".

(** [eth_bridge::ADDRESS]. *)
Definition ADDRESS : Address := Internal EthBridge.

(** [prefix]. *)
Definition prefix : Key := key_from (to_db_key ADDRESS).

(** [escrow_key]. *)
Definition escrow_key (nam_addr : Address) : Key := balance_key nam_addr ADDRESS.

(** [is_eth_bridge_key]: [key == &escrow_key(nam_addr) || matches!(key.segments.get(0), ...)]. *)
Definition is_eth_bridge_key (nam_addr : Address) (key : Key) : bool :=
  (if key_eq_dec key (escrow_key nam_addr) then true else false)
  || match nth_error (segments key) 0 with
     | Some first_segment =>
         if seg_eq_dec first_segment (to_db_key ADDRESS) then true else false
     | None => false
     end.

(** ** Node and gossip configuration ([ledger/src/lib/config.rs]) *)

(** Modelled from the spec: [Topic] is declared in [crate::types], not in
    this tree (the spec treats node and gossip configuration as plumbing);
    only the two variants this file names are listed. *)
Inductive Topic : Type := Dkg | Orderbook.

Definition topic_eq_dec (a b : Topic) : {a = b} + {a <> b}.
Proof. decide equality. Defined.

Module Gossip.
Local Open Scope string_scope.

Record Gossip : Type := mk_gossip {
  host : string;
  port : string;
  rpc : bool;
  peers : list string;
  topics : list Topic;
  matchmaker : string;
  ledger_host : string;
  ledger_port : string }.

(** [format!("/ip4/{}/tcp/{}", self.host, self.port)]. *)
Definition get_address (g : Gossip) : string :=
  "/ip4/" ++ host g ++ "/tcp/" ++ port g.

(** [format!("tpc://{}:{}", self.ledger_host, self.ledger_port)]. *)
Definition get_ledger_address (g : Gossip) : string :=
  "tpc://" ++ ledger_host g ++ ":" ++ ledger_port g.

(** The setters take [&mut self]: each returns the updated value. *)
Definition set_peers (g : Gossip) (ps : list string) : Gossip :=
  mk_gossip (host g) (port g) (rpc g) ps (topics g) (matchmaker g)
            (ledger_host g) (ledger_port g).

Definition set_topic (g : Gossip) (topic : Topic) : Gossip :=
  mk_gossip (host g) (port g) (rpc g) (peers g) (topics g ++ [topic])
            (matchmaker g) (ledger_host g) (ledger_port g).

Definition set_dkg_topic (g : Gossip) (enable : bool) : Gossip :=
  if enable then set_topic g Dkg else g.

Definition set_rpc (g : Gossip) (enable : bool) : Gossip :=
  mk_gossip (host g) (port g) enable (peers g) (topics g) (matchmaker g)
            (ledger_host g) (ledger_port g).

Definition set_orderbook_topic (g : Gossip) (enable : bool) : Gossip :=
  if enable then set_topic g Orderbook else g.

Definition set_address (g : Gossip) (address : option (string * string)) : Gossip :=
  match address with
  | Some addr =>
      mk_gossip (fst addr) (snd addr) (rpc g) (peers g) (topics g)
                (matchmaker g) (ledger_host g) (ledger_port g)
  | None => g
  end.

Definition set_matchmaker (g : Gossip) (mm : option string) : Gossip :=
  match mm with
  | Some mm =>
      mk_gossip (host g) (port g) (rpc g) (peers g) (topics g) mm
                (ledger_host g) (ledger_port g)
  | None => g
  end.

Definition set_ledger_address (g : Gossip) (address : option (string * string)) : Gossip :=
  match address with
  | Some addr =>
      mk_gossip (host g) (port g) (rpc g) (peers g) (topics g) (matchmaker g)
                (fst addr) (snd addr)
  | None => g
  end.
End Gossip.

(** [PathBuf] on a Unix target, as a string. [Path::join] is
    [PathBuf::push]: an absolute argument replaces the path; otherwise a
    separator is added when the path is non-empty and does not already end
    in one, and the argument is appended. *)
Definition PathBuf := string.

Definition is_absolute (p : PathBuf) : bool :=
  match p with
  | String c _ => Ascii.eqb c "/"%char
  | EmptyString => false
  end.

Definition ends_with_sep (p : PathBuf) : bool :=
  match rev (list_ascii_of_string p) with
  | c :: _ => Ascii.eqb c "/"%char
  | [] => false
  end.

Definition join (base path : PathBuf) : PathBuf :=
  if is_absolute path then path
  else if (String.length base =? 0)%nat || ends_with_sep base
       then String.append base path
       else String.append base (String "/"%char path).

Module Config.
Record Node : Type := mk_node {
  home : PathBuf; tendermint_path : PathBuf; db_path : PathBuf; libp2p_path : PathBuf }.
Record Tendermint : Type := mk_tendermint { host : string; port : string; network : string }.
Record Config : Type := mk_config {
  node : Node; tendermint : Tendermint; p2p : Gossip.Gossip }.


Definition gossip_home_dir (c : Config) : PathBuf :=
  join (home (node c)) (libp2p_path (node c)).


Definition BOOKKEEPER_KEY_FILE : string := "priv_bookkepeer_key.json".

(** Where a path leads, as [Path::components] reads it on Unix: the path
    is split at separators; empty components (repeated or trailing
    separators) and [.] are dropped; [..] goes up one level. A relative
    path starts from the working directory. A location is the list of
    names from the root, the root itself being [[]]. *)
Fixpoint split_path (cs : list ascii) (acc : list ascii) : list (list ascii) :=
  match cs with
  | [] => [acc]
  | c :: r => if Ascii.eqb c "/"%char then acc :: split_path r []
              else split_path r (acc ++ [c])
  end.

Definition is_normal (cs : list ascii) : bool :=
  match cs with
  | [] => false
  | [c] => negb (Ascii.eqb c "."%char)
  | _ => true
  end.

Definition components (p : PathBuf) : list string :=
  map string_of_list_ascii (filter is_normal (split_path (list_ascii_of_string p) [])).

Definition Loc := list string.

Definition loc_eqb (a b : Loc) : bool := if list_eq_dec string_dec a b then true else false.

Definition resolve (base : Loc) (cs : list string) : Loc :=
  fold_left (fun st c => if String.eqb c ".." then removelast st else st ++ [c]) cs base.

(** The non-root ancestors of a location, itself included, root first. *)
Fixpoint prefixes (l : Loc) : list Loc :=
  match l with
  | [] => []
  | x :: r => [x] :: map (cons x) (prefixes r)
  end.

(** The file system seen by [get_bookkeeper]: the working directory,
    the files with their contents and the directories other than the
    root, each by location. *)
Record FileSystem : Type := mk_fs {
  cwd : Loc; files : list (Loc * string); dirs : list Loc }.

Definition loc (fs : FileSystem) (p : PathBuf) : Loc :=
  resolve (if is_absolute p then [] else cwd fs) (components p).

Definition mem (l : Loc) (ls : list Loc) : bool := existsb (loc_eqb l) ls.

Definition is_file (fs : FileSystem) (l : Loc) : bool := mem l (map fst (files fs)).

Definition is_dir (fs : FileSystem) (l : Loc) : bool :=
  match l with [] => true | _ => mem l (dirs fs) end.

Definition file_at (fs : FileSystem) (l : Loc) : option string :=
  match find (fun e => loc_eqb l (fst e)) (files fs) with
  | Some e => Some (snd e)
  | None => None
  end.

(** [Path::exists]: the empty path names nothing. *)
Definition path_exists (fs : FileSystem) (p : PathBuf) : bool :=
  negb (String.eqb p "") && (is_file fs (loc fs p) || is_dir fs (loc fs p)).

(** [fs::read_to_string]: fails unless a file is there. *)
Definition read_to_string (fs : FileSystem) (p : PathBuf) : option string :=
  file_at fs (loc fs p).

Definition write_file (fs : FileSystem) (p : PathBuf) (contents : string) : FileSystem :=
  let l := loc fs p in
  mk_fs (cwd fs) ((l, contents) :: filter (fun e => negb (loc_eqb l (fst e))) (files fs))
        (dirs fs).

(** [fs::create_dir_all]: [Ok] at once for the empty path; fails
    ([ENOTDIR] or [EEXIST]) when the path or one of its ancestors is a
    file; otherwise creates the missing ancestors and the path. *)
Definition create_dir_all (fs : FileSystem) (p : PathBuf) : option FileSystem :=
  if String.eqb p "" then Some fs
  else
    let anc := prefixes (loc fs p) in
    if existsb (is_file fs) anc then None
    else Some (mk_fs (cwd fs) (files fs)
                     (filter (fun a => negb (mem a (dirs fs))) anc ++ dirs fs)).

(** [File::create]: fails on a directory and when the parent is not a
    directory; truncates an existing file. *)
Definition file_create (fs : FileSystem) (p : PathBuf) : option FileSystem :=
  let l := loc fs p in
  if is_dir fs l then None
  else if is_dir fs (removelast l) then Some (write_file fs p "") else None.

Inductive io_result (A : Type) : Type := IoOk (a : A) | IoErr | Panic.
Arguments IoOk {A} a.
Arguments IoErr {A}.
Arguments Panic {A}.

Section GetBookkeeper.
(** [Bookkeeper] and its [serde_json] forms are declared outside this
    tree; [fresh] is the value [Bookkeeper::new()] generates. *)
Context {Bookkeeper : Type} (to_json : Bookkeeper -> string)
        (from_json : string -> option Bookkeeper).

Definition get_bookkeeper (c : Config) (fresh : Bookkeeper) (fs : FileSystem)
  : io_result Bookkeeper * FileSystem :=
  if path_exists fs (join (gossip_home_dir c) BOOKKEEPER_KEY_FILE) then
    let conf_file := join (gossip_home_dir c) BOOKKEEPER_KEY_FILE in
    match read_to_string fs conf_file with
    | None => (IoErr, fs)
    | Some json_string =>
        match from_json json_string with
        | Some bookkeeper => (IoOk bookkeeper, fs)
        | None => (IoErr, fs)
        end
    end
  else
    let path := gossip_home_dir c in
    match create_dir_all fs path with
    | None => (Panic, fs)
    | Some fs1 =>
        let path := join path BOOKKEEPER_KEY_FILE in
        let account := fresh in
        match file_create fs1 path with
        | None => (IoErr, fs1)
        | Some fs2 =>
            let json := to_json account in
            (IoOk account, write_file fs2 path json)
        end
    end.
End GetBookkeeper.
End Config.

(** ** Test data *)

(** The configuration [Config::new] builds for the home [/home/anoma]
    with no settings file. *)
Definition default_config : Config.Config :=
  Config.mk_config
    (Config.mk_node "/home/anoma"%string "tendermint"%string "db"%string "libp2p"%string)
    (Config.mk_tendermint "127.0.0.1"%string "26658"%string "mainnet"%string)
    (Gossip.mk_gossip "127.0.0.1"%string "20201"%string true [] [Orderbook] ""%string "127.0.0.1"%string "26658"%string).



(** A file system where the home [/home/anoma] is a regular file. *)
Definition home_is_file_fs : Config.FileSystem :=
  Config.mk_fs [] [(["home"%string; "anoma"%string], "x"%string)] [["home"%string]].

Definition fmt_bytes (bs : list byte) : list ascii :=
  List.concat (map (fun b => [upper_digit (Z_of_byte b / 16);
                              upper_digit (Z_of_byte b mod 16)]) bs).

(** The expected bytes of [test_abi_encode], as hex. *)
Definition test_expected : string :=
  "000000000000000000000000000000000000000000000000000000000000002a000000000000000000000000000000000000000000000000000000000000004000000000000000000000000000000000000000000000000000000000000000047465737400000000000000000000000000000000000000000000000000000000".

Definition test_tokens : AbiEncode 2 :=
  Vector.cons _ (Uint 42) _ (Vector.cons _ (Token.String "test") _ (Vector.nil _)).

Definition cmp_witness_cells : EncodeCell (AbiEncode 1) * EncodeCell (AbiEncode 1) :=
  (mk_cell [x01], mk_cell [x02]).

(** The digest of [test_keccak_hash_impl], as the test writes it (lower case). *)
Definition hello_digest_lower : string :=
  "1c8aff950685c2ed4bc3174f3472287b56d9517b9c948127319a09a7a36deac8".

(** The string of [test_hex_roundtrip] (upper case). *)
Definition hello_digest_upper : string :=
  "1C8AFF950685C2ED4BC3174F3472287B56D9517B9C948127319A09A7A36DEAC8".

Definition all_lower_a : string := "aaaaaaaaaaaaaaaaaaaaaaaaaaaaaaaaaaaaaaaaaaaaaaaaaaaaaaaaaaaaaaaa".

Definition all_upper_a : string := "AAAAAAAAAAAAAAAAAAAAAAAAAAAAAAAAAAAAAAAAAAAAAAAAAAAAAAAAAAAAAAAA".

Definition first_segment (k : Key) : option DbKeySeg := nth_error (segments k) 0.

(** The address of [test_abi_encode_address]. *)
Definition test_eth_address : list byte :=
  match hex_decode "f0457e703bf0b9deb1a6003ffd71c77e44575f95" with
  | Some a => a
  | None => []
  end.

(** The tokens of the validator set of [test_abi_encode_valset_args]:
    addresses, voting powers and epoch, in one tuple. *)
Definition test_valset_tokens : list Token :=
  [Tuple [Array [Token.Address (match hex_decode "241d37b7cf5233b3b0b204321420a86e8f7bfdb5" with
                          | Some a => a | None => [] end)];
          Array [Uint 8828299];
          Uint 0]].

Definition test_valset_expected : string :=
  "0000000000000000000000000000000000000000000000000000000000000020000000000000000000000000000000000000000000000000000000000000006000000000000000000000000000000000000000000000000000000000000000a000000000000000000000000000000000000000000000000000000000000000000000000000000000000000000000000000000000000000000000000000000001000000000000000000000000241d37b7cf5233b3b0b204321420a86e8f7bfdb50000000000000000000000000000000000000000000000000000000000000001000000000000000000000000000000000000000000000000000000000086b58b".

(** * The unit tests of the sources, on the model *)

Example abi_encode_address_test :
  hex_decode "000000000000000000000000f0457e703bf0b9deb1a6003ffd71c77e44575f95"
  = Some (abi_encode [Token.Address test_eth_address]).
Proof. vm_compute. reflexivity. Qed.

Example abi_encode_valset_test :
  hex_decode test_valset_expected = Some (abi_encode test_valset_tokens).
Proof. vm_compute. reflexivity. Qed.

Example keccak_hello :
  hex_decode "1c8aff950685c2ed4bc3174f3472287b56d9517b9c948127319a09a7a36deac8"
  = Some (hash_bytes (keccak_hash (string_bytes "hello"))).
Proof. vm_compute. reflexivity. Qed.

Example hex_roundtrip_test :
  match keccak_of_str "1C8AFF950685C2ED4BC3174F3472287B56D9517B9C948127319A09A7A36DEAC8" with
  | Ok h => keccak_to_string h = "1C8AFF950685C2ED4BC3174F3472287B56D9517B9C948127319A09A7A36DEAC8"%string
  | Err _ => False
  end.
Proof. vm_compute. reflexivity. Qed.

Example storage_tests :
  is_eth_bridge_key nam prefix = true
  /\ is_eth_bridge_key nam (push prefix (StringSeg "arbitrary key segment")) = true
  /\ is_eth_bridge_key nam (key_from (to_db_key (Established "est1"))) = false
  /\ is_eth_bridge_key nam
       (push (key_from (to_db_key (Established "est1"))) (StringSeg "arbitrary key segment"))
     = false.
Proof. vm_compute. repeat split. Qed.

(** When the home is a regular file, [create_dir_all] of the libp2p
    directory fails and [get_bookkeeper]'s [unwrap] panics. *)
Example get_bookkeeper_home_is_file :
  fst (Config.get_bookkeeper (fun b : string => b) (fun s => Some s) default_config
         "k"%string home_is_file_fs) = Config.Panic.
Proof. vm_compute. reflexivity. Qed.

(** * Lemmas *)

Lemma length_list_ascii_of_string (s : string) :
  List.length (list_ascii_of_string s) = String.length s.
Proof. induction s as [|c s IH]; simpl; congruence. Qed.

Lemma to_N_inj (x y : byte) : Byte.to_N x = Byte.to_N y -> x = y.
Proof.
  intros H. pose proof (Byte.of_to_N x) as Hx. pose proof (Byte.of_to_N y) as Hy.
  rewrite H in Hx. congruence.
Qed.

Lemma bytes_eq_spec (l1 l2 : list byte) : bytes_eq l1 l2 = true <-> l1 = l2.
Proof.
  revert l2; induction l1 as [|x r IH]; intros [|y s]; simpl;
    try (split; congruence).
  rewrite andb_true_iff, IH. split.
  - intros [Hb ->]. apply Byte.byte_dec_bl in Hb. congruence.
  - intros H. injection H as -> ->. split; [apply Byte.byte_dec_lb|]; reflexivity.
Qed.

Lemma bytes_cmp_eq (l1 l2 : list byte) : bytes_cmp l1 l2 = Eq <-> l1 = l2.
Proof.
  revert l2; induction l1 as [|x r IH]; intros [|y s]; simpl;
    try (split; congruence).
  destruct (N.compare (Byte.to_N x) (Byte.to_N y)) eqn:E.
  - apply N.compare_eq_iff, to_N_inj in E. subst y. rewrite IH. split; congruence.
  - split; [discriminate|]. intros H. injection H as -> ->.
    rewrite N.compare_refl in E. discriminate.
  - split; [discriminate|]. intros H. injection H as -> ->.
    rewrite N.compare_refl in E. discriminate.
Qed.

Lemma bytes_cmp_antisym (l1 l2 : list byte) :
  bytes_cmp l2 l1 = CompOpp (bytes_cmp l1 l2).
Proof.
  revert l2; induction l1 as [|x r IH]; intros [|y s]; simpl; try reflexivity.
  rewrite (N.compare_antisym (Byte.to_N x) (Byte.to_N y)).
  destruct (N.compare (Byte.to_N x) (Byte.to_N y)); simpl; auto.
Qed.

Lemma hex_val_digit (c : ascii) (v : Z) :
  hex_val c = Some v -> 0 <= v < 16 /\ upper_digit v = ascii_upper c.
Proof.
  intros H.
  destruct c as [[] [] [] [] [] [] [] []]; cbv in H; try discriminate H;
    injection H as <-; split; (lia || reflexivity).
Qed.

Lemma byte_of_Z_small (z : Z) : 0 <= z < 256 -> Z_of_byte (byte_of_Z z) = z.
Proof.
  intros Hz. unfold byte_of_Z, Z_of_byte.
  assert (Hl : Z.land z 255 = z).
  { change 255 with (Z.ones 8). rewrite Z.land_ones by lia.
    apply Z.mod_small. lia. }
  rewrite Hl.
  destruct (Byte.of_N (Z.to_N z)) as [b|] eqn:E.
  - apply Byte.to_of_N in E. rewrite E. lia.
  - apply Byte.of_N_None_iff in E. lia.
Qed.

Lemma hex_decode_list_format (n : nat) (cs : list ascii) (bs : list byte) :
  List.length cs = (2 * n)%nat -> hex_decode_list cs = Some bs ->
  fmt_bytes bs = map ascii_upper cs /\ List.length bs = n.
Proof.
  revert cs bs; induction n as [|n IH]; intros cs bs Hlen Hdec.
  - destruct cs; [|discriminate]. simpl in Hdec. injection Hdec as <-. auto.
  - destruct cs as [|hi [|lo r]]; try discriminate. cbn [hex_decode_list] in Hdec.
    destruct (hex_val hi) as [h|] eqn:Eh; [|discriminate].
    destruct (hex_val lo) as [l|] eqn:El; [|discriminate].
    destruct (hex_decode_list r) as [bs'|] eqn:Er; [|discriminate].
    assert (Hbs : bs = byte_of_Z (16 * h + l) :: bs') by congruence. subst bs.
    apply hex_val_digit in Eh as [Hh Uh]. apply hex_val_digit in El as [Hl Ul].
    destruct (IH r bs') as [Hf Hn]; [simpl in Hlen; lia | exact Er |].
    unfold fmt_bytes in *. cbn [map List.concat app]. rewrite Hf.
    rewrite byte_of_Z_small by lia.
    replace ((16 * h + l) / 16) with h by (Z.div_mod_to_equations; lia).
    replace ((16 * h + l) mod 16) with l by (Z.div_mod_to_equations; lia).
    rewrite Uh, Ul. split; [reflexivity | simpl; lia].
Qed.

Lemma hex_decode_list_none (n : nat) (cs : list ascii) :
  List.length cs = (2 * n)%nat ->
  (hex_decode_list cs = None <-> exists c, In c cs /\ is_hex c = false).
Proof.
  revert cs; induction n as [|n IH]; intros cs Hlen.
  - destruct cs; [|discriminate]. simpl. split; [discriminate|].
    intros [c [[] _]].
  - destruct cs as [|hi [|lo r]]; simpl in Hlen; try lia.
    specialize (IH r ltac:(lia)). simpl. unfold is_hex.
    destruct (hex_val hi) as [h|] eqn:Eh.
    + destruct (hex_val lo) as [l|] eqn:El.
      * destruct (hex_decode_list r) eqn:Er.
        -- split; [discriminate|].
           intros [c [Hin Hc]]. destruct Hin as [<-|[<-|Hin]].
           ++ rewrite Eh in Hc. discriminate.
           ++ rewrite El in Hc. discriminate.
           ++ destruct IH as [_ IH']. specialize (IH' (ex_intro _ c (conj Hin Hc))).
              discriminate.
        -- split; [intros _|reflexivity].
           destruct IH as [IH' _]. destruct (IH' eq_refl) as [c [Hin Hc]].
           exists c. auto.
      * split; [intros _|reflexivity]. exists lo. rewrite El. auto.
    + split; [intros _|reflexivity]. exists hi. rewrite Eh. auto.
Qed.

Lemma keccak_hash_length (b : list byte) : List.length (hash_bytes (keccak_hash b)) = 32%nat.
Proof.
  unfold keccak_hash. cbn [hash_bytes seq map List.concat].
  rewrite !length_app. unfold bytes_of_lane. rewrite !length_map, !length_seq.
  reflexivity.
Qed.

Lemma keccak_of_str_ok (s : string) :
  hex_valid s = true ->
  exists h, keccak_of_str s = Ok h
            /\ keccak_to_string h = to_ascii_uppercase s
            /\ List.length (hash_bytes h) = 32%nat.
Proof.
  unfold hex_valid, keccak_of_str, hex_decode, keccak_to_string, to_ascii_uppercase.
  intros Hv. apply andb_true_iff in Hv as [Hl Hx].
  rewrite Hl. simpl negb. cbv iota.
  apply Nat.eqb_eq in Hl. rewrite <- length_list_ascii_of_string in Hl.
  destruct (hex_decode_list (list_ascii_of_string s)) as [bs|] eqn:E.
  - destruct (hex_decode_list_format 32 _ bs Hl E) as [Hf Hn].
    exists (mk_hash bs). split; [reflexivity|]. split; [|exact Hn].
    cbn [hash_bytes]. fold (fmt_bytes bs). rewrite Hf. reflexivity.
  - apply (hex_decode_list_none 32 _ Hl) in E as [c [Hin Hc]].
    rewrite forallb_forall in Hx. rewrite (Hx c Hin) in Hc. discriminate.
Qed.

(** * Claims *)

(** C1: encoding [[Uint(42), String("test")]] through [AbiEncode::encode]
    yields the bytes of the hex literal of [test_abi_encode]: the word 42,
    the word 0x40 (offset of the tail), then the tail: the length word 4
    and "test" right-padded to 32 bytes. *)
Theorem abi_encode_uint_string :
  hex_decode test_expected = Some (into_inner (encode test_tokens))
  /\ into_inner (encode test_tokens)
     = word 42 ++ word 0x40 ++ word 4 ++ pad_right (string_bytes "test").
Proof. split; vm_compute; reflexivity. Qed.

(** C2: for containers of one tag type, [==] holds exactly when the byte
    buffers are equal, [cmp] and [partial_cmp] are the lexicographic byte
    comparison of the buffers ([Equal] exactly on equal buffers, reversed
    when the arguments are swapped), different buffers compare unequal,
    and two encodings of one value compare equal. *)
Theorem encode_cell_cmp_by_bytes :
  (forall (T : Type) (a b : EncodeCell T),
     (eq a b = true <-> encoded_data a = encoded_data b)
     /\ cmp a b = bytes_cmp (encoded_data a) (encoded_data b)
     /\ partial_cmp a b = Some (cmp a b)
     /\ (cmp a b = Eq <-> encoded_data a = encoded_data b)
     /\ cmp b a = CompOpp (cmp a b)
     /\ (encoded_data a <> encoded_data b -> eq a b = false /\ cmp a b <> Eq))
  /\ (forall (N : nat) (A : Type) (I : Encode N A) (x : A),
        eq (encode x) (encode x) = true /\ cmp (encode x) (encode x) = Eq).
Proof.
  split.
  - intros T a b. unfold eq, cmp, partial_cmp.
    split; [apply bytes_eq_spec|].
    split; [reflexivity|]. split; [reflexivity|].
    split; [apply bytes_cmp_eq|]. split; [apply bytes_cmp_antisym|].
    intros Hne. split.
    + destruct (bytes_eq (encoded_data a) (encoded_data b)) eqn:E; [|reflexivity].
      apply bytes_eq_spec in E. contradiction.
    + intros Hc. apply bytes_cmp_eq in Hc. contradiction.
  - intros N A I x. unfold eq, cmp. split.
    + apply bytes_eq_spec. reflexivity.
    + apply bytes_cmp_eq. reflexivity.
Qed.

Lemma encode_cell_cmp_by_bytes_witness :
  encoded_data (fst cmp_witness_cells) <> encoded_data (snd cmp_witness_cells)
  /\ eq (fst cmp_witness_cells) (snd cmp_witness_cells) = false
  /\ cmp (fst cmp_witness_cells) (snd cmp_witness_cells) <> Eq.
Proof.
  assert (Hne : encoded_data (fst cmp_witness_cells) <> encoded_data (snd cmp_witness_cells))
    by (vm_compute; discriminate).
  split; [exact Hne|].
  exact (proj2 (proj2 (proj2 (proj2 (proj2 (proj1 encode_cell_cmp_by_bytes _
           (fst cmp_witness_cells) (snd cmp_witness_cells)))))) Hne).
Defined.

(** C3: the three derived methods of [Encode<N>] are layered on
    [tokenize]: [encode] runs the ABI encoder on the tokens, [keccak256]
    hashes the bytes of [encode], [signable_keccak256] applies the
    signable transform to [keccak256]. *)
Theorem encode_methods_layering :
  forall (N : nat) (A : Type) (I : Encode N A) (x : A),
    into_inner (encode x) = abi_encode (Vector.to_list (tokenize x))
    /\ keccak256 x = keccak_hash (into_inner (encode x))
    /\ signable_keccak256 x = as_signable (keccak256 x)
    /\ as_signable (keccak256 x) = keccak_hash (eth_message_prefix ++ hash_bytes (keccak256 x)).
Proof. intros N A I x. repeat split. Qed.

(** C4 (counterexample): the lower-case digest string is valid hex but
    does not survive parse-then-format; and no formatter of the 32-byte
    digest can reproduce every valid string, since [aa..a] and [AA..A]
    parse to the same digest. *)
Lemma keccak_hex_roundtrip_case_lost :
  hex_valid hello_digest_lower = true
  /\ (exists h, keccak_of_str hello_digest_lower = Ok h
                /\ keccak_to_string h <> hello_digest_lower)
  /\ ~ (exists fmt : KeccakHash -> string,
          forall s, hex_valid s = true ->
                    exists h, keccak_of_str s = Ok h /\ fmt h = s).
Proof.
  split; [vm_compute; reflexivity|]. split.
  - eexists. split; [vm_compute; reflexivity|]. vm_compute. discriminate.
  - intros [fmt Hf].
    destruct (Hf all_lower_a ltac:(vm_compute; reflexivity)) as [h1 [E1 F1]].
    destruct (Hf all_upper_a ltac:(vm_compute; reflexivity)) as [h2 [E2 F2]].
    vm_compute in E1. vm_compute in E2.
    assert (h1 = h2) as <- by congruence.
    rewrite F1 in F2. vm_compute in F2. discriminate.
Qed.

(** C4 (amended): every valid 64-character hex string parses, and
    formatting the digest gives the string with its letters in upper case;
    the round trip is exact for strings without lower-case letters. *)
Theorem keccak_hex_roundtrip_upper (s : string) :
  hex_valid s = true ->
  exists h, keccak_of_str s = Ok h /\ keccak_to_string h = to_ascii_uppercase s.
Proof.
  intros Hv. destruct (keccak_of_str_ok s Hv) as [h [E [F _]]]. eauto.
Qed.

Lemma keccak_hex_roundtrip_upper_witness :
  hex_valid hello_digest_upper = true
  /\ to_ascii_uppercase hello_digest_upper = hello_digest_upper
  /\ exists h, keccak_of_str hello_digest_upper = Ok h
               /\ keccak_to_string h = to_ascii_uppercase hello_digest_upper.
Proof.
  assert (Hv : hex_valid hello_digest_upper = true) by (vm_compute; reflexivity).
  split; [exact Hv|]. split; [vm_compute; reflexivity|].
  exact (keccak_hex_roundtrip_upper hello_digest_upper Hv).
Defined.

(** C5: parsing a digest from hex fails, with an [Err], exactly when the
    input is not 64 characters long or holds a non-hex character, and
    succeeds (with a 32-byte digest) otherwise; [encode], [keccak256] and
    [signable_keccak256] return plain values for every input. *)
Theorem keccak_of_str_error_iff :
  (forall s : string,
     ((exists e, keccak_of_str s = Err e)
      <-> (String.length s <> 64%nat
           \/ exists c, In c (list_ascii_of_string s) /\ is_hex c = false))
     /\ ((exists h, keccak_of_str s = Ok h)
         <-> (String.length s = 64%nat
              /\ forall c, In c (list_ascii_of_string s) -> is_hex c = true)))
  /\ (forall (s : string) (h : KeccakHash),
        keccak_of_str s = Ok h -> List.length (hash_bytes h) = 32%nat)
  /\ (forall (N : nat) (A : Type) (I : Encode N A) (x : A),
        exists c h h', encode x = c /\ keccak256 x = h /\ signable_keccak256 x = h').
Proof.
  split; [|split].
  - intros s. unfold keccak_of_str, hex_decode.
    destruct (String.length s =? 64)%nat eqn:L; cbn [negb].
    + apply Nat.eqb_eq in L.
      assert (Hl : List.length (list_ascii_of_string s) = (2 * 32)%nat)
        by (rewrite length_list_ascii_of_string; lia).
      pose proof (hex_decode_list_none 32 _ Hl) as Hn.
      destruct (hex_decode_list (list_ascii_of_string s)) as [bs|] eqn:E.
      * split.
        -- split; [intros [e He]; discriminate|].
           intros [Hc|Hc]; [contradiction|]. apply Hn in Hc. discriminate.
        -- split; [intros _; split; [exact L|]|intros _; eauto].
           intros c Hin. destruct (is_hex c) eqn:Ec; [reflexivity|].
           assert (Hx : Some bs = None) by (apply Hn; eauto).
           discriminate.
      * destruct (proj1 Hn eq_refl) as [c [Hin Hc]]. split.
        -- split; [intros _; right; eauto|intros _; eauto].
        -- split; [intros [h Hh]; discriminate|].
           intros [_ Hall]. rewrite (Hall c Hin) in Hc. discriminate.
    + apply Nat.eqb_neq in L. split.
      * split; [intros _; left; exact L|intros _; eauto].
      * split; [intros [h Hh]; discriminate|]. intros [Hl _]. contradiction.
  - intros s h. unfold keccak_of_str, hex_decode.
    destruct (String.length s =? 64)%nat eqn:L; cbn [negb]; [|discriminate].
    apply Nat.eqb_eq in L.
    assert (Hl : List.length (list_ascii_of_string s) = (2 * 32)%nat)
      by (rewrite length_list_ascii_of_string; lia).
    destruct (hex_decode_list (list_ascii_of_string s)) as [bs|] eqn:E; [|discriminate].
    intros Hh. injection Hh as <-. cbn [hash_bytes].
    exact (proj2 (hex_decode_list_format 32 _ bs Hl E)).
  - intros N A I x. do 3 eexists. repeat split.
Qed.

Lemma keccak_of_str_error_iff_witness :
  keccak_of_str hello_digest_upper = Ok (mk_hash (hash_bytes (keccak_hash (string_bytes "hello"))))
  /\ List.length (hash_bytes (mk_hash (hash_bytes (keccak_hash (string_bytes "hello"))))) = 32%nat
  /\ (exists e, keccak_of_str "1C8A" = Err e).
Proof.
  assert (Hok : keccak_of_str hello_digest_upper
                = Ok (mk_hash (hash_bytes (keccak_hash (string_bytes "hello")))))
    by (vm_compute; reflexivity).
  split; [exact Hok|]. split.
  - exact (proj1 (proj2 keccak_of_str_error_iff) _ _ Hok).
  - apply (proj1 keccak_of_str_error_iff). left. vm_compute. discriminate.
Defined.

(** C7: tokenizing or encoding one value twice gives identical results,
    and the encoding depends on nothing but the token sequence. *)
Theorem encode_deterministic :
  forall (N : nat) (A : Type) (I : Encode N A) (v : A),
    tokenize v = tokenize v
    /\ encode v = encode v
    /\ keccak256 v = keccak256 v
    /\ (forall w : A, tokenize w = tokenize v -> encode w = encode v).
Proof.
  intros N A I v. repeat split.
  intros w Hw. unfold encode, EncodeCell_new. rewrite Hw. reflexivity.
Qed.

Lemma encode_deterministic_witness :
  encode (test_tokens : AbiEncode 2) = encode test_tokens
  /\ (tokenize test_tokens = tokenize test_tokens -> encode test_tokens = encode test_tokens).
Proof.
  split.
  - exact (proj1 (proj2 (encode_deterministic _ _ _ test_tokens))).
  - exact (proj2 (proj2 (proj2 (encode_deterministic _ _ _ test_tokens))) test_tokens).
Defined.

(** C8: [[Token; N]] implements [Encode<N>] with the identity
    tokenization, so its encoding is the ABI encoding of its tokens. *)
Theorem abi_encode_identity_tokenize :
  forall (N : nat) (t : AbiEncode N),
    tokenize t = t /\ into_inner (encode t) = abi_encode (Vector.to_list t).
Proof. intros N t. split; reflexivity. Qed.

(** C9: the keccak-256 digest of any byte string is a function of it
    alone and is 32 bytes long; the digest of "hello" is
    [1c8aff95...a36deac8]. *)
Theorem keccak256_fixed_len_hello :
  (forall b : list byte,
     List.length (hash_bytes (keccak_hash b)) = 32%nat /\ keccak_hash b = keccak_hash b)
  /\ hex_decode hello_digest_lower = Some (hash_bytes (keccak_hash (string_bytes "hello"))).
Proof.
  split.
  - intros b. split; [apply keccak_hash_length | reflexivity].
  - vm_compute. reflexivity.
Qed.

(** C10: [is_eth_bridge_key nam_addr key] holds exactly when [key] is
    [escrow_key nam_addr] or its first segment is the bridge address; in
    particular the escrow key is accepted although (for a native token
    other than the bridge address) it does not start with the bridge
    segment, and every other key whose first segment is not the bridge's
    is refused. *)
Theorem is_eth_bridge_key_spec (nam_addr : Address) (key : Key) :
  (is_eth_bridge_key nam_addr key = true
   <-> key = escrow_key nam_addr \/ first_segment key = Some (to_db_key ADDRESS))
  /\ is_eth_bridge_key nam_addr (escrow_key nam_addr) = true
  /\ (nam_addr <> ADDRESS ->
      first_segment (escrow_key nam_addr) <> Some (to_db_key ADDRESS))
  /\ (key <> escrow_key nam_addr ->
      first_segment key <> Some (to_db_key ADDRESS) ->
      is_eth_bridge_key nam_addr key = false).
Proof.
  assert (Hiff : forall k, is_eth_bridge_key nam_addr k = true
                 <-> k = escrow_key nam_addr \/ first_segment k = Some (to_db_key ADDRESS)).
  { intros k. unfold is_eth_bridge_key, first_segment. rewrite orb_true_iff.
    destruct (key_eq_dec k (escrow_key nam_addr)) as [He|He].
    - split; [intros _; left; exact He|intros _; left; reflexivity].
    - destruct (nth_error (segments k) 0) as [seg|].
      + destruct (seg_eq_dec seg (to_db_key ADDRESS)) as [Hs|Hs].
        * subst seg. split; [intros _; right; reflexivity|intros _; right; reflexivity].
        * split; [intros [H|H]; discriminate|].
          intros [H|H]; [contradiction|]. injection H as H. contradiction.
      + split; [intros [H|H]; discriminate|]. intros [H|H]; [contradiction|discriminate]. }
  split; [apply Hiff|]. split; [apply Hiff; left; reflexivity|]. split.
  - intros Hn. unfold escrow_key, balance_key, first_segment. cbn.
    intros H. injection H as H. contradiction.
  - intros Hk Hs. destruct (is_eth_bridge_key nam_addr key) eqn:E; [|reflexivity].
    apply Hiff in E as [E|E]; contradiction.
Qed.

Lemma is_eth_bridge_key_spec_witness :
  nam <> ADDRESS
  /\ first_segment (escrow_key nam) <> Some (to_db_key ADDRESS)
  /\ is_eth_bridge_key nam (key_from (to_db_key (Established "est1"))) = false.
Proof.
  assert (Hn : nam <> ADDRESS) by discriminate.
  split; [exact Hn|]. split.
  - exact (proj1 (proj2 (proj2 (is_eth_bridge_key_spec nam prefix))) Hn).
  - apply (proj2 (proj2 (proj2 (is_eth_bridge_key_spec nam
             (key_from (to_db_key (Established "est1"))))))).
    + vm_compute. discriminate.
    + vm_compute. discriminate.
Defined.

(** * Further properties of the code *)

Lemma bytes_cmp_trans_lt (l1 l2 l3 : list byte) :
  bytes_cmp l1 l2 = Lt -> bytes_cmp l2 l3 = Lt -> bytes_cmp l1 l3 = Lt.
Proof.
  revert l2 l3; induction l1 as [|x r IH]; intros [|y s] [|z u]; simpl;
    try discriminate; try reflexivity.
  destruct (N.compare (Byte.to_N x) (Byte.to_N y)) eqn:Exy;
  destruct (N.compare (Byte.to_N y) (Byte.to_N z)) eqn:Eyz;
    try discriminate; intros H1 H2.
  - rewrite N.compare_eq_iff in Exy, Eyz. rewrite Exy, Eyz, N.compare_refl. eauto.
  - apply N.compare_eq_iff in Exy. rewrite Exy, Eyz. reflexivity.
  - apply N.compare_eq_iff in Eyz. rewrite <- Eyz, Exy. reflexivity.
  - rewrite N.compare_lt_iff in Exy, Eyz.
    assert (Hxz : (Byte.to_N x < Byte.to_N z)%N) by lia.
    apply N.compare_lt_iff in Hxz. rewrite Hxz. reflexivity.
Qed.

(** [Ord for EncodeCell] is a total order consistent with its
    [PartialEq]: [cmp] is transitive, swapping the arguments reverses the
    result, [Equal] holds exactly for containers with equal buffers (and
    exactly when [eq] holds), so for any two containers exactly one of
    [Less], [Equal], [Greater] holds and [partial_cmp] agrees with [cmp]. *)
Theorem encode_cell_cmp_total_order (T : Type) (a b c : EncodeCell T) :
  (cmp a b = Lt -> cmp b c = Lt -> cmp a c = Lt)
  /\ (cmp a b = Gt -> cmp b c = Gt -> cmp a c = Gt)
  /\ cmp b a = CompOpp (cmp a b)
  /\ (cmp a b = Eq <-> encoded_data a = encoded_data b)
  /\ (eq a b = true <-> cmp a b = Eq)
  /\ partial_cmp a b = Some (cmp a b).
Proof.
  unfold cmp, eq, partial_cmp. split; [apply bytes_cmp_trans_lt|]. split.
  - intros H1 H2.
    rewrite bytes_cmp_antisym in H1, H2 |- *.
    destruct (bytes_cmp (encoded_data b) (encoded_data a)) eqn:E1; try discriminate.
    destruct (bytes_cmp (encoded_data c) (encoded_data b)) eqn:E2; try discriminate.
    rewrite (bytes_cmp_trans_lt _ _ _ E2 E1). reflexivity.
  - split; [apply bytes_cmp_antisym|]. split; [apply bytes_cmp_eq|]. split; [|reflexivity].
    rewrite bytes_eq_spec, bytes_cmp_eq. reflexivity.
Qed.

Lemma encode_cell_cmp_total_order_witness :
  cmp (mk_cell [x01] : EncodeCell (AbiEncode 1)) (mk_cell [x02]) = Lt
  /\ cmp (mk_cell [x02] : EncodeCell (AbiEncode 1)) (mk_cell [x03]) = Lt
  /\ cmp (mk_cell [x01] : EncodeCell (AbiEncode 1)) (mk_cell [x03]) = Lt.
Proof.
  assert (H1 : cmp (mk_cell [x01] : EncodeCell (AbiEncode 1)) (mk_cell [x02]) = Lt)
    by reflexivity.
  assert (H2 : cmp (mk_cell [x02] : EncodeCell (AbiEncode 1)) (mk_cell [x03]) = Lt)
    by reflexivity.
  split; [exact H1|]. split; [exact H2|].
  exact (proj1 (encode_cell_cmp_total_order _ _ _ (mk_cell [x03])) H1 H2).
Defined.

(** A container whose bytes are a proper prefix of another's sorts
    strictly before it. *)
Theorem encode_cell_prefix_lt (T : Type) (l r : list byte) (x : byte) :
  cmp (mk_cell l : EncodeCell T) (mk_cell (l ++ x :: r)) = Lt
  /\ eq (mk_cell l : EncodeCell T) (mk_cell (l ++ x :: r)) = false.
Proof.
  unfold cmp, eq; cbn [encoded_data].
  induction l as [|y l IH]; simpl.
  - split; reflexivity.
  - rewrite N.compare_refl, Byte.byte_dec_lb by reflexivity. exact IH.
Qed.

(** Every key whose first segment is the bridge address is a bridge key,
    whatever follows it and whatever the native token. *)
Theorem is_eth_bridge_key_under_prefix (nam_addr : Address) (rest : list DbKeySeg) :
  is_eth_bridge_key nam_addr (mk_key (segments prefix ++ rest)) = true.
Proof.
  unfold is_eth_bridge_key. simpl.
  destruct (seg_eq_dec (AddressSeg ADDRESS) (to_db_key ADDRESS)) as [_|H];
    [apply orb_true_r | contradiction H; reflexivity].
Qed.

(** The empty key is never a bridge key. *)
Theorem is_eth_bridge_key_empty (nam_addr : Address) :
  is_eth_bridge_key nam_addr (mk_key []) = false.
Proof.
  unfold is_eth_bridge_key.
  destruct (key_eq_dec (mk_key []) (escrow_key nam_addr)) as [H|_]; [|reflexivity].
  discriminate H.
Qed.

(** A key whose first segment is neither the bridge address nor the
    native token's address (a string segment, another address) is never a
    bridge key, whatever follows it. *)
Theorem is_eth_bridge_key_other_first (nam_addr : Address) (seg : DbKeySeg)
    (rest : list DbKeySeg) :
  seg <> to_db_key ADDRESS -> seg <> to_db_key nam_addr ->
  is_eth_bridge_key nam_addr (mk_key (seg :: rest)) = false.
Proof.
  intros Hb Hn. unfold is_eth_bridge_key.
  destruct (key_eq_dec (mk_key (seg :: rest)) (escrow_key nam_addr)) as [H|_].
  - injection H as H _. contradiction.
  - cbn [orb nth_error segments]. destruct (seg_eq_dec seg (to_db_key ADDRESS)); [contradiction|reflexivity].
Qed.

Lemma is_eth_bridge_key_other_first_witness :
  Established "est1" <> ADDRESS /\ Established "est1" <> nam
  /\ is_eth_bridge_key nam (mk_key [AddressSeg (Established "est1");
                                   StringSeg "arbitrary key segment"]) = false.
Proof.
  split; [discriminate|]. split; [discriminate|].
  apply is_eth_bridge_key_other_first; discriminate.
Defined.

(** Sub-keys of the escrow key are not bridge keys: only the escrow key
    itself is accepted outside the bridge prefix. *)
Theorem is_eth_bridge_key_escrow_subkey (nam_addr : Address) (seg : DbKeySeg) :
  nam_addr <> ADDRESS ->
  is_eth_bridge_key nam_addr (push (escrow_key nam_addr) seg) = false.
Proof.
  intros Hn. unfold is_eth_bridge_key.
  destruct (key_eq_dec (push (escrow_key nam_addr) seg) (escrow_key nam_addr)) as [H|_].
  - apply (f_equal (fun k => List.length (segments k))) in H. simpl in H. lia.
  - cbn [orb push escrow_key balance_key key_from segments app nth_error].
    destruct (seg_eq_dec (to_db_key nam_addr) (to_db_key ADDRESS)) as [H|_];
      [injection H as H; contradiction | reflexivity].
Qed.

Lemma is_eth_bridge_key_escrow_subkey_witness :
  nam <> ADDRESS
  /\ is_eth_bridge_key nam (push (escrow_key nam) (StringSeg "x")) = false.
Proof.
  assert (Hn : nam <> ADDRESS) by discriminate.
  split; [exact Hn|]. exact (is_eth_bridge_key_escrow_subkey nam _ Hn).
Defined.

(** Setting the gossip address changes the libp2p multiaddress to
    [/ip4/<host>/tcp/<port>] and leaves the ledger address alone. *)
Theorem gossip_set_address_get_address (g : Gossip.Gossip) (h p : string) :
  Gossip.get_address (Gossip.set_address g (Some (h, p)))
  = ("/ip4/" ++ h ++ "/tcp/" ++ p)%string
  /\ Gossip.get_ledger_address (Gossip.set_address g (Some (h, p)))
     = Gossip.get_ledger_address g.
Proof. split; reflexivity. Qed.

(** Setting the ledger address changes the ledger address to
    [tpc://<host>:<port>] (the scheme is spelled [tpc]) and leaves the
    libp2p address alone. *)
Theorem gossip_set_ledger_address_get (g : Gossip.Gossip) (h p : string) :
  Gossip.get_ledger_address (Gossip.set_ledger_address g (Some (h, p)))
  = ("tpc://" ++ h ++ ":" ++ p)%string
  /\ Gossip.get_address (Gossip.set_ledger_address g (Some (h, p)))
     = Gossip.get_address g.
Proof. split; reflexivity. Qed.

(** Enabling a topic appends it to the topic list without removing
    duplicates: its count grows by one even when it is already there;
    for both topic setters the libp2p and ledger addresses, the peers,
    the rpc flag and the matchmaker are untouched. *)
Theorem gossip_enable_topic_appends (g : Gossip.Gossip) :
  Gossip.topics (Gossip.set_orderbook_topic g true) = Gossip.topics g ++ [Orderbook]
  /\ count_occ topic_eq_dec (Gossip.topics (Gossip.set_orderbook_topic g true)) Orderbook
     = S (count_occ topic_eq_dec (Gossip.topics g) Orderbook)
  /\ Gossip.topics (Gossip.set_dkg_topic g true) = Gossip.topics g ++ [Dkg]
  /\ count_occ topic_eq_dec (Gossip.topics (Gossip.set_dkg_topic g true)) Dkg
     = S (count_occ topic_eq_dec (Gossip.topics g) Dkg)
  /\ Gossip.get_address (Gossip.set_orderbook_topic g true) = Gossip.get_address g
  /\ Gossip.get_address (Gossip.set_dkg_topic g true) = Gossip.get_address g
  /\ Gossip.get_ledger_address (Gossip.set_orderbook_topic g true) = Gossip.get_ledger_address g
  /\ Gossip.get_ledger_address (Gossip.set_dkg_topic g true) = Gossip.get_ledger_address g
  /\ Gossip.peers (Gossip.set_orderbook_topic g true) = Gossip.peers g
  /\ Gossip.peers (Gossip.set_dkg_topic g true) = Gossip.peers g
  /\ Gossip.rpc (Gossip.set_orderbook_topic g true) = Gossip.rpc g
  /\ Gossip.rpc (Gossip.set_dkg_topic g true) = Gossip.rpc g
  /\ Gossip.matchmaker (Gossip.set_orderbook_topic g true) = Gossip.matchmaker g
  /\ Gossip.matchmaker (Gossip.set_dkg_topic g true) = Gossip.matchmaker g.
Proof.
  cbn [Gossip.set_orderbook_topic Gossip.set_dkg_topic Gossip.set_topic Gossip.topics].
  rewrite !count_occ_app. simpl.
  repeat split; lia || reflexivity.
Qed.







(** ** Paths and the file-system model *)



















Section Bookkeeper.
Context {Bookkeeper : Type} (to_json : Bookkeeper -> string)
        (from_json : string -> option Bookkeeper).


End Bookkeeper.


